(** * ImageCraft server: token authentication and credit metering

    Shallow embedding of the request-authentication middleware
    [middlewares/auth.js], of the credit update documented in the
    repository's README, and of the credit-metered operation described by the
    specification, together with the properties the specification states
    about them. *)

From stdpp Require Import gmap strings list.
From Stdlib Require Import ZArith Lia.

Local Open Scope Z_scope.

(** ** JavaScript values *)

Module Js.

(** The values a decoded JSON payload, a request header or a property read
    can hold.  Numbers are the integers; a JSON object is a finite map from
    property names to values. *)
#[local] Unset Elimination Schemes.
Inductive JsValue : Type :=
  | JUndefined
  | JNull
  | JBool (b : bool)
  | JNumber (z : Z)
  | JString (s : string)
  | JArray (items : list JsValue)
  | JObject (fields : gmap string JsValue).
#[local] Set Elimination Schemes.

(** An [Error] object: its [name] and its [message]. *)
Record JsError : Type := mkError { name : string; message : string }.

(** The result of evaluating an expression: a value, or a thrown error. *)
Inductive Completion (A : Type) : Type :=
  | Normal (a : A)
  | Thrown (e : JsError).
Arguments Normal {A} a.
Arguments Thrown {A} e.

(** [ToBoolean]: what [!v] negates. *)
Definition truthy (v : JsValue) : bool :=
  match v with
  | JUndefined | JNull => false
  | JBool b => b
  | JNumber z => negb (z =? 0)
  | JString s => negb (String.eqb s "")
  | JArray _ | JObject _ => true
  end.

(** A request header: absent ([undefined]) or a string. *)
Definition of_header (h : option string) : JsValue :=
  match h with
  | None => JUndefined
  | Some s => JString s
  end.

(** The property read [v.k].  On [undefined] and [null] it throws a
    [TypeError]; on an object it is the field, [undefined] when there is
    none; the other values have no own property of that name. *)
Definition get_prop (v : JsValue) (k : string) : Completion JsValue :=
  match v with
  | JUndefined =>
      Thrown (mkError "TypeError"
                ("Cannot read properties of undefined (reading '" +:+ k +:+ "')"))
  | JNull =>
      Thrown (mkError "TypeError"
                ("Cannot read properties of null (reading '" +:+ k +:+ "')"))
  | JObject fields => Normal (default JUndefined (fields !! k))
  | _ => Normal JUndefined
  end.

End Js.

(** ** The middleware [userAuth] of [middlewares/auth.js] *)

Module Auth.
Import Js.

(** The JSON body [{success, message}] of a response. *)
Record Body : Type := mkBody { success : bool; body_message : string }.

Record Response : Type := mkResponse { status : Z; body : Body }.

(** What a run of the middleware does to the world around it, in order. *)
Inductive Event : Type :=
  | EvResponse (r : Response)
      (** [res.status(c).json(b)] delivered a response to the client *)
  | EvVerify (token secret : option string)
      (** [jwt.verify(token, secret)] was called *)
  | EvLog (e : JsError)
      (** [console.log(error)] *)
  | EvSetUserId (v : JsValue)
      (** [req.userId = v] *)
  | EvNext.
      (** [next()] *)

Definition is_response (ev : Event) : bool :=
  match ev with EvResponse _ => true | _ => false end.

(** [res.headersSent]: a response has gone out already. *)
Definition headersSent (tr : list Event) : bool := existsb is_response tr.

(** The middleware runs in a monad of a trace of events and of exceptions. *)
Definition M (A : Type) : Type := list Event -> Completion A * list Event.

Definition ret {A} (a : A) : M A := fun tr => (Normal a, tr).

Definition bind {A B} (m : M A) (k : A -> M B) : M B := fun tr =>
  match m tr with
  | (Normal a, tr') => k a tr'
  | (Thrown e, tr') => (Thrown e, tr')
  end.

Definition emit (ev : Event) : M unit := fun tr => (Normal tt, tr ++ [ev]).

(** [try { body } catch (error) { handler }] *)
Definition try_catch {A} (body : M A) (handler : JsError -> M A) : M A := fun tr =>
  match body tr with
  | (Normal a, tr') => (Normal a, tr')
  | (Thrown e, tr') => handler e tr'
  end.

Definition lift {A} (c : Completion A) : M A := fun tr => (c, tr).

Notation "x <- m ;; k" := (bind m (fun x => k))
  (at level 100, m at next level, right associativity).
Notation "m ;; k" := (bind m (fun _ => k))
  (at level 100, right associativity).

(** Node refuses to set a header once the response head has been written:
    an [Error] whose [code] is [ERR_HTTP_HEADERS_SENT]. *)
Definition ERR_HTTP_HEADERS_SENT : JsError :=
  mkError "Error" "Cannot set headers after they are sent to the client".

(** Express's [res.status(code).json(body)]: [status] only stores the code;
    [json] sets the content type and sends, which throws when the response
    has been sent before. *)
Definition res_status_json (code : Z) (b : Body) : M unit := fun tr =>
  if headersSent tr then (Thrown ERR_HTTP_HEADERS_SENT, tr)
  else (Normal tt, tr ++ [EvResponse (mkResponse code b)]).

Definition console_log (e : JsError) : M unit := emit (EvLog e).
Definition set_userId (v : JsValue) : M unit := emit (EvSetUserId v).

(** [next()] hands the request to the next handler; Express's dispatcher
    catches what that handler throws, so the call itself returns. *)
Definition next : M unit := emit EvNext.

(** The body of both 400 responses, lines 9 and 17. *)
Definition not_authorized : Body := mkBody false "Not Authorized Login Again".

Section UserAuth.

(** [jwt.verify] of the jsonwebtoken package: the decoded payload, or a
    thrown error. *)
Variable verify : option string -> option string -> Completion JsValue.

(** [process.env.JWT_SECRET] *)
Variable JWT_SECRET : option string.

Definition jwt_verify (token : option string) : M JsValue :=
  emit (EvVerify token JWT_SECRET) ;; lift (verify token JWT_SECRET).

(** [userAuth(req, res, next)], with [token = req.headers.token]. *)
Definition userAuth (token : option string) : M unit :=
  (if negb (truthy (of_header token))
   then res_status_json 400 not_authorized
   else ret tt) ;;
  try_catch
    (tokenDecode <- jwt_verify token ;;
     id <- lift (get_prop tokenDecode "id") ;;
     if negb (truthy id)
     then res_status_json 400 not_authorized
     else set_userId id ;; next)
    (fun error =>
       console_log error ;;
       res_status_json 500 (mkBody false (message error))).

(** A request starts with nothing sent and nothing done. *)
Definition run (token : option string) : Completion unit * list Event :=
  userAuth token [].

End UserAuth.

(** *** What a run shows from outside *)

(** The response the client receives: the first one sent. *)
Fixpoint client_response (tr : list Event) : option Response :=
  match tr with
  | [] => None
  | EvResponse r :: _ => Some r
  | _ :: tr' => client_response tr'
  end.

Definition is_next (ev : Event) : bool :=
  match ev with EvNext => true | _ => false end.

(** The request went on to the next handler. *)
Definition next_called (tr : list Event) : bool := existsb is_next tr.

(** [req.userId] once the run is over; [undefined] when never assigned. *)
Fixpoint userId_from (v : JsValue) (tr : list Event) : JsValue :=
  match tr with
  | [] => v
  | EvSetUserId v' :: tr' => userId_from v' tr'
  | _ :: tr' => userId_from v tr'
  end.

Definition userId (tr : list Event) : JsValue := userId_from JUndefined tr.

(** The events that follow the first response. *)
Fixpoint after_response (tr : list Event) : list Event :=
  match tr with
  | [] => []
  | EvResponse _ :: tr' => tr'
  | _ :: tr' => after_response tr'
  end.

(** *** The middleware read as the specification's [authenticate]

    The middleware has no result value: it accepts by assigning [req.userId]
    and calling [next()], and it rejects by answering the client itself.  It
    writes two rejection answers: status 400 with [not_authorized], which
    line 9 sends for a missing token, and status 500 with the message of the
    caught error, which line 28 sends when verification throws.  The reason
    of a rejection, as the client can tell it, is the answer received. *)

Inductive Reason : Type := MissingToken | InvalidToken.

Inductive AuthorizationResult : Type :=
  | Authenticated (identity : JsValue)
  | Rejected (reason : Reason).

Definition rejection_class (r : Response) : Reason :=
  if status r =? 400 then MissingToken else InvalidToken.

Definition outcome (tr : list Event) : option AuthorizationResult :=
  if next_called tr then Some (Authenticated (userId tr))
  else Rejected ∘ rejection_class <$> client_response tr.

Definition authenticate (verify : option string -> option string -> Completion JsValue)
    (JWT_SECRET token : option string) : option AuthorizationResult :=
  outcome (snd (run verify JWT_SECRET token)).

(** *** A stand-in for the jsonwebtoken package, for concrete runs

    [jwt.verify] throws on an absent or empty token; here the token
    ["signed-u1"] carries the payload [{id: "u1"}], ["signed-noid"] the
    payload [{}], ["expired"] is past its expiry, and every other token
    fails the signature check. *)
Definition sample_verify (token secret : option string) : Completion JsValue :=
  match token with
  | None => Thrown (mkError "JsonWebTokenError" "jwt must be provided")
  | Some t =>
      if String.eqb t "" then Thrown (mkError "JsonWebTokenError" "jwt must be provided")
      else if String.eqb t "signed-u1" then Normal (JObject {["id" := JString "u1"]})
      else if String.eqb t "signed-noid" then Normal (JObject ∅)
      else if String.eqb t "expired" then Thrown (mkError "TokenExpiredError" "jwt expired")
      else Thrown (mkError "JsonWebTokenError" "invalid signature")
  end.

(** *** Further readings of a run *)

(** Every response delivered, in order. *)
Fixpoint responses (tr : list Event) : list Response :=
  match tr with
  | [] => []
  | EvResponse r :: tr' => r :: responses tr'
  | _ :: tr' => responses tr'
  end.

(** The calls of [jwt.verify], in order, each with its two arguments. *)
Fixpoint verify_calls (tr : list Event) : list (option string * option string) :=
  match tr with
  | [] => []
  | EvVerify token secret :: tr' => (token, secret) :: verify_calls tr'
  | _ :: tr' => verify_calls tr'
  end.

(** *** The example middleware of the README

    "Example: Protected Route Usage" shows the middleware as
<<
   const userAuth = (req, res, next) => {
     const { token } = req.headers;
     const decoded = jwt.verify(token, process.env.JWT_SECRET);
     req.userId = decoded.id;
     next();
   };
>>
    with no test of the token or of the id, and no [try]. *)
Definition userAuth_example
    (verify : option string -> option string -> Completion JsValue)
    (JWT_SECRET token : option string) : M unit :=
  decoded <- jwt_verify verify JWT_SECRET token ;;
  id <- lift (get_prop decoded "id") ;;
  set_userId id ;;
  next.

End Auth.

(** ** The credit-metered operation *)

Module Credit.

(** Modelled from the spec: the reasons of section 7 with which [execute],
    absent from the sources, denies or fails. *)
Inductive DenyReason : Type := InsufficientCredit.

Inductive FailReason : Type := UnknownIdentity | OperationError | InvalidCost.

(** Modelled from the spec: the identity store of section 6, absent from the
    sources: accounts by identity, each with an integer credit balance. *)
Definition findAccountByIdentity (id : string) (accounts : gmap string Z) : option Z :=
  accounts !! id.

(** Modelled from the spec: [conditionalDecrement(id, amount) -> bool] of
    section 6, true iff the balance was at least [amount] and was
    decremented, as one step on the store. *)
Definition conditionalDecrement (id : string) (amount : Z) (accounts : gmap string Z)
    : bool * gmap string Z :=
  match accounts !! id with
  | Some b => if amount <=? b then (true, <[id := b - amount]> accounts) else (false, accounts)
  | None => (false, accounts)
  end.

(** Modelled from the spec: conditional decrements on one identity, one
    after the other as the store of section 5 serialises them: the total
    charged by those that went through, and the store they leave. *)
Fixpoint conditionalDecrements (id : string) (amounts : list Z)
    (accounts : gmap string Z) : Z * gmap string Z :=
  match amounts with
  | [] => (0, accounts)
  | amount :: rest =>
      let '(ok, accounts') := conditionalDecrement id amount accounts in
      let '(charged, accounts'') := conditionalDecrements id rest accounts' in
      ((if ok then amount else 0) + charged, accounts'')
  end.

Section Execute.

(** What the costly operation returns on success, and the world outside
    the store on which it acts. *)
Context {Result World : Type}.

(** Modelled from the spec: the costly operation of section 6, an opaque
    callable that returns a result or an error. *)
Inductive OperationResult : Type :=
  | OpOk (r : Result)
  | OpError.

(** Modelled from the spec: the outcomes of [execute], section 4.2. *)
Inductive Outcome : Type :=
  | Success (r : Result) (newBalance : Z)
  | Denied (reason : DenyReason)
  | Failed (reason : FailReason).

(** Modelled from the spec: what [execute] runs against: the persistent
    store of balances, the world the operation acts on, and how many times
    the operation has been invoked. *)
Record State : Type := mkState {
  accounts : gmap string Z;
  world : World;
  invoked : nat
}.

(** Modelled from the spec: [execute] of section 4.2, the controller that
    meters image generation, absent from the sources.  The cost is
    validated first (a cost of zero or less is [InvalidCost]); then steps 1
    to 5 in their order.  The operation acts on the world only and cannot
    reach the store.  Where the final conditional decrement finds the
    balance too low, no charge is made and the request is denied. *)
Definition execute (id : string) (operationCost : Z)
    (operation : World -> OperationResult * World) (st : State) : Outcome * State :=
  if operationCost <=? 0 then (Failed InvalidCost, st)
  else
    match findAccountByIdentity id (accounts st) with
    | None => (Failed UnknownIdentity, st)
    | Some b =>
        if b <? operationCost then (Denied InsufficientCredit, st)
        else
          let '(res, w) := operation (world st) in
          let n := S (invoked st) in
          match res with
          | OpError => (Failed OperationError, mkState (accounts st) w n)
          | OpOk r =>
              let '(ok, accounts') := conditionalDecrement id operationCost (accounts st) in
              if ok then
                match findAccountByIdentity id accounts' with
                | Some b' => (Success r b', mkState accounts' w n)
                | None => (Failed UnknownIdentity, mkState accounts' w n)
                end
              else (Denied InsufficientCredit, mkState accounts' w n)
          end
    end.

(** The balance of an identity, as persisted. *)
Definition balance (id : string) (st : State) : option Z := accounts st !! id.

End Execute.

Arguments OperationResult : clear implicits.
Arguments Outcome : clear implicits.
Arguments State : clear implicits.

End Credit.

(** ** The credit update of the README *)

Module Readme.

(** The update under "Example: Database Query":
<<
   const user = await userModel.findById(userId);
   await userModel.findByIdAndUpdate(
     userId, { creditBalance: user.creditBalance - 1 }, { new: true });
>>
    Each [await] is one operation on the store; between the two, other
    requests run.  A [creditBalance] is a JavaScript Number; it is modelled
    here by the integer it holds, and [user.creditBalance - 1] by integer
    subtraction, which is what the Number subtraction computes as long as the
    balances stay safe integers. *)

(** [Number.MAX_SAFE_INTEGER] *)
Definition MAX_SAFE_INTEGER : Z := 2 ^ 53 - 1.

(** [Number.isSafeInteger], on an integer: in this range the Numbers are the
    integers and their subtraction is exact. *)
Definition safe_integer (v : Z) : Prop :=
  - MAX_SAFE_INTEGER <= v <= MAX_SAFE_INTEGER.

(** Where a request stands in these two statements. *)
Inductive Request : Type :=
  | Start (userId : string)
      (** before [findById] *)
  | Loaded (userId : string) (user : option Z)
      (** [findById] resolved: the user's [creditBalance], or [null] *)
  | Updated (userId : string)
      (** [findByIdAndUpdate] resolved: one credit deducted *)
  | Crashed (userId : string).
      (** [user] was [null]: [user.creditBalance] threw *)

(** [userModel.findById] *)
Definition findById (userId : string) (store : gmap string Z) : option Z :=
  store !! userId.

(** [userModel.findByIdAndUpdate(userId, { creditBalance: v })]: sets the
    field of the document when there is one (no upsert). *)
Definition findByIdAndUpdate (userId : string) (v : Z) (store : gmap string Z)
    : gmap string Z :=
  alter (fun _ => v) userId store.

(** One request runs up to its next [await]. *)
Definition step (store : gmap string Z) (r : Request) : gmap string Z * Request :=
  match r with
  | Start u => (store, Loaded u (findById u store))
  | Loaded u (Some creditBalance) =>
      (findByIdAndUpdate u (creditBalance - 1) store, Updated u)
  | Loaded u None => (store, Crashed u)
  | Updated u => (store, Updated u)
  | Crashed u => (store, Crashed u)
  end.

(** The requests in flight run interleaved: a schedule names, step by step,
    the request that runs next. *)
Fixpoint run_schedule (schedule : list nat) (store : gmap string Z)
    (requests : list Request) : gmap string Z * list Request :=
  match schedule with
  | [] => (store, requests)
  | i :: schedule' =>
      match requests !! i with
      | Some r =>
          let '(store', r') := step store r in
          run_schedule schedule' store' (<[i := r']> requests)
      | None => run_schedule schedule' store requests
      end
  end.

Definition is_updated (u : string) (r : Request) : bool :=
  match r with Updated u' => bool_decide (u' = u) | _ => false end.

(** The credits deducted from [u] by the requests that completed: one
    each. *)
Definition deducted (u : string) (requests : list Request) : Z :=
  Z.of_nat (length (List.filter (is_updated u) requests)).

(** The user a request is made for. *)
Definition request_user (r : Request) : string :=
  match r with
  | Start u | Loaded u _ | Updated u | Crashed u => u
  end.

Definition is_start (r : Request) : bool :=
  match r with Start _ => true | _ => false end.

(** What every interleaving keeps for a user [u] whose balance was [b] when
    the requests came in: the stored balance, and every balance read and not
    yet written back, lie between [b] less the credits deducted so far and
    [b]; once a credit is deducted the stored balance is below [b]. *)
Definition within_charges (u : string) (b : Z) (store : gmap string Z)
    (requests : list Request) : Prop :=
  exists v,
    store !! u = Some v
    /\ b - deducted u requests <= v <= b
    /\ (1 <= deducted u requests -> v <= b - 1)
    /\ Forall (fun r => forall s, r = Loaded u (Some s) ->
                         b - deducted u requests <= s <= b) requests.

(** What every interleaving keeps for a user [u] without a document: there
    is still none, and no request of theirs holds a balance or is done. *)
Definition never_served (u : string) (store : gmap string Z)
    (requests : list Request) : Prop :=
  store !! u = None
  /\ Forall (fun r => r ≠ Updated u /\ forall s, r ≠ Loaded u (Some s)) requests.

(** One request of [u] served alone, from its first statement to its last:
    the store it leaves. *)
Definition serve_alone (u : string) (store : gmap string Z) : gmap string Z :=
  fst (run_schedule [0; 0]%nat store [Start u]).

End Readme.

(** * Properties of the middleware *)

Import Js Auth.

(** Unfolds a run of the middleware down to its events. *)
Ltac unfold_run :=
  unfold authenticate, outcome, run, userAuth, jwt_verify, bind, try_catch, lift,
    ret, console_log, set_userId, next, emit, res_status_json.

Section AuthFacts.

Variable verify : option string -> option string -> Completion JsValue.
Variable JWT_SECRET : option string.

Lemma truthy_header_nonempty (t : string) :
  t ≠ "" -> truthy (of_header (Some t)) = true.
Proof.
  intros Ht. simpl. apply negb_true_iff, String.eqb_neq. exact Ht.
Qed.

Lemma falsy_header (token : option string) :
  truthy (of_header token) = false <-> token = None \/ token = Some "".
Proof.
  destruct token as [t|]; simpl.
  - rewrite negb_false_iff, String.eqb_eq. split.
    + intros ->. now right.
    + intros [H|H]; congruence.
  - split; auto.
Qed.

(** A request with a non-empty token gets past line 8 with nothing sent. *)
Lemma userAuth_nonempty (t : string) :
  t ≠ "" ->
  run verify JWT_SECRET (Some t) =
    try_catch
      (tokenDecode <- jwt_verify verify JWT_SECRET (Some t) ;;
       id <- lift (get_prop tokenDecode "id") ;;
       if negb (truthy id)
       then res_status_json 400 not_authorized
       else set_userId id ;; next)
      (fun error =>
         console_log error ;;
         res_status_json 500 (mkBody false (message error))) [].
Proof.
  intros Ht. unfold run, userAuth.
  rewrite (truthy_header_nonempty t Ht). reflexivity.
Qed.

(** With a non-empty token no exception leaves the middleware. *)
Lemma userAuth_nonempty_returns (t : string) :
  t ≠ "" -> fst (run verify JWT_SECRET (Some t)) = Normal tt.
Proof.
  intros Ht. rewrite (userAuth_nonempty t Ht). unfold_run. simpl.
  destruct (verify (Some t) JWT_SECRET) as [p|e]; simpl; [|reflexivity].
  destruct (get_prop p "id") as [v|e]; simpl; [|reflexivity].
  destruct (truthy v); reflexivity.
Qed.

End AuthFacts.

Section AuthClaims.

Variable verify : option string -> option string -> Completion JsValue.
Variable JWT_SECRET : option string.

(** C1, at the input where the code departs from it: for a request whose
    token is absent or empty the client receives the answer 400 "Not
    Authorized Login Again", but the run does not end there: line 9 has no
    [return], so the next thing the middleware does after answering is to
    call [jwt.verify] on that token, and whatever follows from it.  Where
    that call throws, the request stays [Rejected(MissingToken)]. *)
Theorem userAuth_missing_token_goes_on (token : option string) :
  truthy (of_header token) = false ->
  (exists c rest,
     run verify JWT_SECRET token =
       (c, EvResponse (mkResponse 400 not_authorized)
             :: EvVerify token JWT_SECRET :: rest))
  /\ client_response (snd (run verify JWT_SECRET token))
     = Some (mkResponse 400 not_authorized)
  /\ (exists rest,
        after_response (snd (run verify JWT_SECRET token))
          = EvVerify token JWT_SECRET :: rest)
  /\ (forall e,
        verify token JWT_SECRET = Thrown e ->
        authenticate verify JWT_SECRET token = Some (Rejected MissingToken)).
Proof.
  intros Hfalsy.
  assert (Hrun : exists c rest,
     run verify JWT_SECRET token =
       (c, EvResponse (mkResponse 400 not_authorized)
             :: EvVerify token JWT_SECRET :: rest)).
  { unfold_run. rewrite Hfalsy. simpl.
    destruct (verify token JWT_SECRET) as [p|e]; simpl.
    - destruct (get_prop p "id") as [v|e]; simpl.
      + destruct (truthy v); simpl; eauto.
      + eauto.
    - eauto. }
  split; [exact Hrun|].
  destruct Hrun as (c & rest & Hrun).
  repeat split.
  - rewrite Hrun. reflexivity.
  - rewrite Hrun. simpl. eauto.
  - intros e He. unfold_run. rewrite Hfalsy. simpl. rewrite He. reflexivity.
Qed.


(** C3: for every non-empty token that [jwt.verify] accepts and whose
    decoded payload carries the subject identifier [S] (a truthy [id]), the
    middleware assigns [req.userId = S] and calls [next()], and does nothing
    else: the request is [Authenticated(S)], with [S] the very value the
    payload holds. *)
Theorem userAuth_valid_token (t : string) (payload S : JsValue) :
  t ≠ "" ->
  verify (Some t) JWT_SECRET = Normal payload ->
  get_prop payload "id" = Normal S ->
  truthy S = true ->
  run verify JWT_SECRET (Some t) =
    (Normal tt, [EvVerify (Some t) JWT_SECRET; EvSetUserId S; EvNext])
  /\ authenticate verify JWT_SECRET (Some t) = Some (Authenticated S).
Proof.
  intros Ht Hv Hid HS.
  assert (Hrun : run verify JWT_SECRET (Some t) =
    (Normal tt, [EvVerify (Some t) JWT_SECRET; EvSetUserId S; EvNext])).
  { rewrite (userAuth_nonempty _ _ t Ht). unfold_run. simpl.
    rewrite Hv. simpl. rewrite Hid. simpl. rewrite HS. reflexivity. }
  split; [exact Hrun|].
  unfold authenticate. rewrite Hrun. reflexivity.
Qed.

(** C4, as the code has it: for every non-empty token that [jwt.verify]
    accepts but whose decoded payload lacks a subject identifier (no [id],
    or a falsy one), the middleware rejects the request: it never calls
    [next()] and answers 400 "Not Authorized Login Again".  That answer is
    the one every request without a token receives, and it is not the
    answer to a failed verification, which has status 500. *)
Theorem userAuth_no_subject (t : string) (payload v : JsValue) :
  t ≠ "" ->
  verify (Some t) JWT_SECRET = Normal payload ->
  get_prop payload "id" = Normal v ->
  truthy v = false ->
  run verify JWT_SECRET (Some t) =
    (Normal tt,
     [EvVerify (Some t) JWT_SECRET; EvResponse (mkResponse 400 not_authorized)])
  /\ authenticate verify JWT_SECRET (Some t) = Some (Rejected MissingToken)
  /\ (forall verify' secret' token',
        truthy (of_header token') = false ->
        client_response (snd (run verify' secret' token')) =
        client_response (snd (run verify JWT_SECRET (Some t))))
  /\ (forall verify' secret' t' e,
        t' ≠ "" ->
        verify' (Some t') secret' = Thrown e ->
        client_response (snd (run verify' secret' (Some t'))) ≠
        client_response (snd (run verify JWT_SECRET (Some t)))).
Proof.
  intros Ht Hv Hid Hfalsy.
  assert (Hrun : run verify JWT_SECRET (Some t) =
    (Normal tt,
     [EvVerify (Some t) JWT_SECRET; EvResponse (mkResponse 400 not_authorized)])).
  { rewrite (userAuth_nonempty _ _ t Ht). unfold_run. simpl.
    rewrite Hv. simpl. rewrite Hid. simpl. rewrite Hfalsy. reflexivity. }
  rewrite Hrun. repeat split.
  - unfold authenticate. rewrite Hrun. reflexivity.
  - intros verify' secret' token' Hmissing.
    unfold_run. rewrite Hmissing. simpl.
    destruct (verify' token' secret') as [p|e]; simpl.
    + destruct (get_prop p "id") as [w|e]; simpl; [destruct (truthy w)|]; reflexivity.
    + reflexivity.
  - intros verify' secret' t' e Ht' Hthrows.
    rewrite (userAuth_nonempty _ _ t' Ht'). unfold_run. simpl.
    rewrite Hthrows. simpl. discriminate.
Qed.

(** C5, at the input where the code departs from it: for a request whose
    token is absent or empty, on which [jwt.verify] throws, the middleware
    has answered 400 already when the handler of line 26 logs the error and
    tries to answer 500; that second answer throws, nothing catches it, and
    the exception leaves the middleware. *)
Theorem userAuth_missing_token_throws (token : option string) (e : JsError) :
  truthy (of_header token) = false ->
  verify token JWT_SECRET = Thrown e ->
  run verify JWT_SECRET token =
    (Thrown ERR_HTTP_HEADERS_SENT,
     [EvResponse (mkResponse 400 not_authorized);
      EvVerify token JWT_SECRET; EvLog e]).
Proof.
  intros Hfalsy Hv. unfold_run. rewrite Hfalsy. simpl. rewrite Hv. reflexivity.
Qed.

(** C10: for every request, [next()] is called if and only if [jwt.verify]
    of the supplied token against the configured secret returns a payload
    whose [id] is truthy; in that case the run ends with the assignment
    [req.userId = id] followed at once by the one call of [next()], and
    [req.userId] holds the decoded id. *)
Theorem userAuth_next_iff (token : option string) :
  (next_called (snd (run verify JWT_SECRET token)) = true <->
     exists payload id,
       verify token JWT_SECRET = Normal payload
       /\ get_prop payload "id" = Normal id /\ truthy id = true)
  /\ (forall payload id,
        verify token JWT_SECRET = Normal payload ->
        get_prop payload "id" = Normal id ->
        truthy id = true ->
        exists before,
          snd (run verify JWT_SECRET token) = before ++ [EvSetUserId id; EvNext]
          /\ next_called before = false
          /\ userId (snd (run verify JWT_SECRET token)) = id).
Proof.
  split.
  - unfold_run.
    destruct (verify token JWT_SECRET) as [p|e] eqn:Hverify.
    + destruct (get_prop p "id") as [v|e] eqn:Hid.
      * destruct (truthy v) eqn:Hv.
        -- split; [intros _; eauto|].
           intros _. destruct (truthy (of_header token)); reflexivity.
        -- split.
           ++ destruct (truthy (of_header token)); simpl; discriminate.
           ++ intros (p' & id & Hp & Hid' & Hid''). congruence.
      * split.
        -- destruct (truthy (of_header token)); simpl; discriminate.
        -- intros (p' & id & Hp & Hid' & _). congruence.
    + split.
      * destruct (truthy (of_header token)); simpl; discriminate.
      * intros (p' & id & Hp & _). discriminate.
  - intros p id Hv Hid Ht. unfold_run. rewrite Hv.
    destruct (truthy (of_header token)); simpl; rewrite Hid; simpl; rewrite Ht; simpl.
    + exists [EvVerify token JWT_SECRET]. auto.
    + exists [EvResponse (mkResponse 400 not_authorized); EvVerify token JWT_SECRET]. auto.
Qed.

End AuthClaims.

Lemma userAuth_missing_token_goes_on_witness :
  client_response (snd (run sample_verify (Some "k") None))
    = Some (mkResponse 400 not_authorized)
  /\ exists rest,
       after_response (snd (run sample_verify (Some "k") None))
         = EvVerify None (Some "k") :: rest.
Proof.
  destruct (userAuth_missing_token_goes_on sample_verify (Some "k") None)
    as (_ & Hresponse & Hafter & _).
  - reflexivity.
  - split; [exact Hresponse | exact Hafter].
Defined.


Lemma userAuth_valid_token_witness :
  run sample_verify (Some "k") (Some "signed-u1") =
    (Normal tt,
     [EvVerify (Some "signed-u1") (Some "k"); EvSetUserId (JString "u1"); EvNext])
  /\ authenticate sample_verify (Some "k") (Some "signed-u1")
     = Some (Authenticated (JString "u1")).
Proof.
  apply (userAuth_valid_token sample_verify (Some "k") "signed-u1"
           (JObject {["id" := JString "u1"]}) (JString "u1")).
  - discriminate.
  - reflexivity.
  - reflexivity.
  - reflexivity.
Defined.

Lemma userAuth_no_subject_witness :
  run sample_verify (Some "k") (Some "signed-noid") =
    (Normal tt,
     [EvVerify (Some "signed-noid") (Some "k");
      EvResponse (mkResponse 400 not_authorized)])
  /\ authenticate sample_verify (Some "k") (Some "signed-noid")
     = Some (Rejected MissingToken).
Proof.
  destruct (userAuth_no_subject sample_verify (Some "k") "signed-noid"
              (JObject ∅) JUndefined) as (Hrun & Hauth & _).
  - discriminate.
  - reflexivity.
  - reflexivity.
  - reflexivity.
  - split; [exact Hrun | exact Hauth].
Defined.

(** C4 as stated fails: the token ["signed-noid"] verifies and its payload
    [{}] has no [id], yet the rejection is not the one of a failed
    verification: the request gets what a request without a token gets, and
    not what a request with a forged token gets. *)
Lemma userAuth_no_subject_counterexample :
  sample_verify (Some "signed-noid") (Some "k") = Normal (JObject ∅)
  /\ get_prop (JObject ∅) "id" = Normal JUndefined
  /\ authenticate sample_verify (Some "k") (Some "signed-noid")
     ≠ Some (Rejected InvalidToken)
  /\ authenticate sample_verify (Some "k") (Some "signed-noid")
     = authenticate sample_verify (Some "k") None
  /\ client_response (snd (run sample_verify (Some "k") (Some "signed-noid")))
     = client_response (snd (run sample_verify (Some "k") None))
  /\ client_response (snd (run sample_verify (Some "k") (Some "signed-noid")))
     ≠ client_response (snd (run sample_verify (Some "k") (Some "forged"))).
Proof.
  repeat split; try reflexivity; vm_compute; discriminate.
Qed.

Lemma userAuth_missing_token_throws_witness :
  run sample_verify (Some "k") None =
    (Thrown ERR_HTTP_HEADERS_SENT,
     [EvResponse (mkResponse 400 not_authorized);
      EvVerify None (Some "k");
      EvLog (mkError "JsonWebTokenError" "jwt must be provided")]).
Proof.
  apply (userAuth_missing_token_throws sample_verify (Some "k") None
           (mkError "JsonWebTokenError" "jwt must be provided")).
  - reflexivity.
  - reflexivity.
Defined.

Lemma userAuth_next_iff_witness :
  exists before,
    snd (run sample_verify (Some "k") (Some "signed-u1"))
      = before ++ [EvSetUserId (JString "u1"); EvNext]
    /\ next_called before = false
    /\ userId (snd (run sample_verify (Some "k") (Some "signed-u1"))) = JString "u1".
Proof.
  apply (proj2 (userAuth_next_iff sample_verify (Some "k") (Some "signed-u1"))
           (JObject {["id" := JString "u1"]}) (JString "u1"));
    reflexivity.
Defined.

(** * Properties of the credit-metered operation *)

Import Credit.

Section CreditFacts.

Context {Result World : Type}.

Implicit Types (st : State World) (id : string) (b c : Z).
Implicit Types (op : World -> OperationResult Result * World).

(** The conditional decrement goes through exactly when the balance
    covers the amount, and then leaves the difference. *)
Lemma conditionalDecrement_covered id c b (accounts : gmap string Z) :
  accounts !! id = Some b -> c <= b ->
  conditionalDecrement id c accounts = (true, <[id := b - c]> accounts).
Proof.
  intros Hb Hc. unfold conditionalDecrement. rewrite Hb.
  destruct (Z.leb_spec c b); [reflexivity | lia].
Qed.

Lemma conditionalDecrement_short id c b (accounts : gmap string Z) :
  accounts !! id = Some b -> b < c ->
  conditionalDecrement id c accounts = (false, accounts).
Proof.
  intros Hb Hc. unfold conditionalDecrement. rewrite Hb.
  destruct (Z.leb_spec c b); [lia | reflexivity].
Qed.

(** However many conditional decrements reach the store for one identity,
    the total charged is what the balance went down by, and a balance that
    was not negative never becomes so. *)
Lemma conditionalDecrements_never_overdraw id (amounts : list Z) :
  forall b (accounts : gmap string Z),
    accounts !! id = Some b -> 0 <= b ->
    exists b',
      snd (conditionalDecrements id amounts accounts) !! id = Some b'
      /\ 0 <= b'
      /\ fst (conditionalDecrements id amounts accounts) = b - b'.
Proof.
  induction amounts as [|a rest IH]; intros b accounts Hb Hpos; simpl.
  - exists b. repeat split; [exact Hb | exact Hpos | lia].
  - destruct (Z.le_gt_cases a b) as [Hle|Hgt].
    + rewrite (conditionalDecrement_covered id a b accounts Hb Hle).
      destruct (IH (b - a) (<[id := b - a]> accounts)) as (b' & Hb' & Hpos' & Hsum).
      { apply lookup_insert_eq. }
      { lia. }
      destruct (conditionalDecrements id rest (<[id := b - a]> accounts)) as [charged acc'].
      simpl in *. exists b'. repeat split; [exact Hb' | exact Hpos' | lia].
    + rewrite (conditionalDecrement_short id a b accounts Hb ltac:(lia)).
      destruct (IH b accounts Hb Hpos) as (b' & Hb' & Hpos' & Hsum).
      destruct (conditionalDecrements id rest accounts) as [charged acc'].
      simpl in *. exists b'. repeat split; [exact Hb' | exact Hpos' | lia].
Qed.

End CreditFacts.

Section CreditClaims.

Context {Result World : Type}.

Implicit Types (st : State World) (id : string) (b c : Z).
Implicit Types (op : World -> OperationResult Result * World).

(** C6: for every account with balance [b] and every cost [c] (a positive
    integer, as the contract of [execute] has it) with [b < c], [execute]
    returns [Denied(InsufficientCredit)]; the state is left as it was: the
    balance is unchanged and the costly operation has not been invoked. *)
Theorem execute_insufficient_credit id c op st b :
  balance id st = Some b ->
  0 < c ->
  b < c ->
  execute id c op st = (Denied InsufficientCredit, st)
  /\ balance id (snd (execute id c op st)) = Some b
  /\ invoked (snd (execute id c op st)) = invoked st.
Proof.
  intros Hb Hc Hlt.
  assert (Hexec : execute id c op st = (Denied InsufficientCredit, st)).
  { unfold execute, findAccountByIdentity. unfold balance in Hb. rewrite Hb.
    destruct (Z.leb_spec c 0); [lia|].
    destruct (Z.ltb_spec b c); [reflexivity | lia]. }
  rewrite Hexec. simpl. auto.
Qed.

(** C7: for every account with balance [b] and every cost [c] (a positive
    integer) with [b >= c], if the costly operation succeeds then [execute]
    returns [Success] and the persisted balance is [b - c] exactly; at the
    boundary [b = c] that balance is 0, and a further call with a cost of
    at least 1 is then [Denied(InsufficientCredit)]. *)
Theorem execute_success id c op st b (r : Result) (w : World) :
  balance id st = Some b ->
  0 < c ->
  c <= b ->
  op (world st) = (OpOk r, w) ->
  execute id c op st =
    (Success r (b - c), mkState (<[id := b - c]> (accounts st)) w (S (invoked st)))
  /\ balance id (snd (execute id c op st)) = Some (b - c)
  /\ (b = c ->
      balance id (snd (execute id c op st)) = Some 0
      /\ forall c' op',
           1 <= c' ->
           execute id c' op' (snd (execute id c op st)) =
             (Denied InsufficientCredit, snd (execute id c op st))).
Proof.
  intros Hb Hc Hle Hop.
  assert (Hexec : execute id c op st =
    (Success r (b - c), mkState (<[id := b - c]> (accounts st)) w (S (invoked st)))).
  { unfold execute, findAccountByIdentity. unfold balance in Hb. rewrite Hb.
    destruct (Z.leb_spec c 0); [lia|].
    destruct (Z.ltb_spec b c); [lia|].
    rewrite Hop.
    rewrite (conditionalDecrement_covered id c b (accounts st) Hb Hle).
    rewrite lookup_insert_eq. reflexivity. }
  rewrite Hexec. simpl.
  assert (Hnew : balance id
    (mkState (<[id := b - c]> (accounts st)) w (S (invoked st))) = Some (b - c)).
  { unfold balance. simpl. apply lookup_insert_eq. }
  repeat split.
  - exact Hnew.
  - rewrite Hnew. f_equal. lia.
  - intros c' op' Hc'. unfold execute, findAccountByIdentity.
    unfold balance in Hnew. rewrite Hnew.
    destruct (Z.leb_spec c' 0); [lia|].
    destruct (Z.ltb_spec (b - c) c'); [reflexivity | lia].
Qed.

(** C8: for every account and every cost, if the costly operation fails
    then the accounts after [execute] are the accounts before, whatever the
    operation did to the world outside; whenever the operation was invoked,
    [execute] returns [Failed(OperationError)], and it is invoked for every
    positive cost that the balance covers. *)
Theorem execute_operation_fails id c op st b (w : World) :
  balance id st = Some b ->
  op (world st) = (OpError, w) ->
  accounts (snd (execute id c op st)) = accounts st
  /\ balance id (snd (execute id c op st)) = Some b
  /\ (invoked (snd (execute id c op st)) ≠ invoked st ->
      fst (execute id c op st) = Failed OperationError)
  /\ (0 < c -> c <= b ->
      execute id c op st =
        (Failed OperationError, mkState (accounts st) w (S (invoked st)))).
Proof.
  intros Hb Hop. unfold execute, findAccountByIdentity.
  unfold balance in *. rewrite Hb.
  destruct (Z.leb_spec c 0); simpl.
  - repeat split; [exact Hb | congruence | lia].
  - destruct (Z.ltb_spec b c); simpl.
    + repeat split; [exact Hb | congruence | lia].
    + rewrite Hop. simpl. repeat split. exact Hb.
Qed.

End CreditClaims.

Lemma execute_insufficient_credit_witness :
  execute "u1" 1 (fun w : nat => (OpOk "image", S w)) (mkState {["u1" := 0]} 0%nat 0%nat)
    = (Denied InsufficientCredit, mkState {["u1" := 0]} 0%nat 0%nat)
  /\ balance "u1"
       (snd (execute "u1" 1 (fun w : nat => (OpOk "image", S w))
               (mkState {["u1" := 0]} 0%nat 0%nat))) = Some 0
  /\ invoked
       (snd (execute "u1" 1 (fun w : nat => (OpOk "image", S w))
               (mkState {["u1" := 0]} 0%nat 0%nat))) = 0%nat.
Proof.
  apply (execute_insufficient_credit "u1" 1 (fun w : nat => (OpOk "image", S w))
           (mkState {["u1" := 0]} 0%nat 0%nat) 0).
  - reflexivity.
  - lia.
  - lia.
Defined.

Lemma execute_success_witness :
  execute "u1" 5 (fun w : nat => (OpOk "image", S w)) (mkState {["u1" := 5]} 0%nat 0%nat)
    = (Success "image" (5 - 5),
       mkState (<["u1" := 5 - 5]> {["u1" := 5]}) 1%nat 1%nat).
Proof.
  destruct (execute_success "u1" 5 (fun w : nat => (OpOk "image", S w))
              (mkState {["u1" := 5]} 0%nat 0%nat) 5 "image" 1%nat)
    as (Hexec & _).
  - reflexivity.
  - lia.
  - lia.
  - reflexivity.
  - exact Hexec.
Defined.

Lemma execute_operation_fails_witness :
  balance "u1"
    (snd (execute "u1" 1 (fun w : nat => (@OpError string, S w))
            (mkState {["u1" := 5]} 0%nat 0%nat))) = Some 5.
Proof.
  destruct (execute_operation_fails "u1" 1 (fun w : nat => (@OpError string, S w))
              (mkState {["u1" := 5]} 0%nat 0%nat) 5 1%nat)
    as (_ & Hbalance & _).
  - reflexivity.
  - reflexivity.
  - exact Hbalance.
Defined.

(** The scenarios of the specification: from a balance of 5, five
    operations of cost 1 leave 0 and the sixth is denied; a cost of 0 is
    refused. *)
Example execute_five_then_denied :
  let op := fun w : nat => (OpOk "image", S w) in
  let run1 := fun st => snd (execute "u1" 1 op st) in
  let st5 := run1 (run1 (run1 (run1 (run1 (mkState {["u1" := 5]} 0%nat 0%nat))))) in
  balance "u1" st5 = Some 0
  /\ invoked st5 = 5%nat
  /\ execute "u1" 1 op st5 = (Denied InsufficientCredit, st5).
Proof. vm_compute. auto. Qed.

Example execute_cost_zero :
  execute "u1" 0 (fun w : nat => (OpOk "image", S w)) (mkState {["u1" := 5]} 0%nat 0%nat)
    = (Failed InvalidCost, mkState {["u1" := 5]} 0%nat 0%nat).
Proof. reflexivity. Qed.

(** * The credit update of the README under interleaving *)

Import Readme.

(** Run one after the other, two requests deduct two credits. *)
Lemma readme_update_sequential (u : string) (b : Z) (store : gmap string Z) :
  store !! u = Some b ->
  fst (run_schedule [0; 0; 1; 1]%nat store [Start u; Start u]) !! u = Some (b - 2).
Proof.
  intros Hb. simpl. unfold findById, findByIdAndUpdate. rewrite Hb. simpl.
  rewrite lookup_alter_eq, Hb. simpl.
  rewrite lookup_alter_eq, lookup_alter_eq, Hb. simpl. f_equal. lia.
Qed.

(** C9, at the input where the code departs from it: two requests of one
    user run the README's update interleaved, both reading before either
    writes.  Both complete, so two credits count as deducted, yet the stored
    balance went down by one only: from a balance of 1, two deductions are
    made against a single credit. *)
Theorem readme_update_lost (u : string) (b : Z) (store : gmap string Z) :
  store !! u = Some b ->
  run_schedule [0; 1; 0; 1]%nat store [Start u; Start u] =
    (alter (fun _ => b - 1) u (alter (fun _ => b - 1) u store), [Updated u; Updated u])
  /\ deducted u (snd (run_schedule [0; 1; 0; 1]%nat store [Start u; Start u])) = 2
  /\ fst (run_schedule [0; 1; 0; 1]%nat store [Start u; Start u]) !! u = Some (b - 1).
Proof.
  intros Hb.
  assert (Hrun : run_schedule [0; 1; 0; 1]%nat store [Start u; Start u] =
    (alter (fun _ => b - 1) u (alter (fun _ => b - 1) u store), [Updated u; Updated u])).
  { simpl. unfold findById, findByIdAndUpdate. rewrite Hb. reflexivity. }
  rewrite Hrun. simpl. repeat split.
  - unfold deducted. simpl. rewrite !bool_decide_eq_true_2 by reflexivity.
    reflexivity.
  - rewrite !lookup_alter_eq, Hb. reflexivity.
Qed.

Lemma readme_update_lost_witness :
  deducted "u1" (snd (run_schedule [0; 1; 0; 1]%nat {["u1" := 1]} [Start "u1"; Start "u1"])) = 2
  /\ fst (run_schedule [0; 1; 0; 1]%nat {["u1" := 1]} [Start "u1"; Start "u1"]) !! "u1"
     = Some (1 - 1).
Proof.
  destruct (readme_update_lost "u1" 1 {["u1" := 1]}) as (_ & Hd & Hb).
  - reflexivity.
  - split; [exact Hd | exact Hb].
Defined.

(** * Further properties of the middleware *)

Section AuthFurther.

Variable verify : option string -> option string -> Completion JsValue.
Variable JWT_SECRET : option string.

(** Splits a run of the middleware into the paths it can take. *)
Ltac run_paths token :=
  unfold_run;
  destruct (truthy (of_header token)) eqn:Htoken; simpl;
  (destruct (verify token JWT_SECRET) as [payload|err] eqn:Hverify; simpl;
   [destruct (get_prop payload "id") as [id|err] eqn:Hid; simpl;
    [destruct (truthy id) eqn:Htruthy; simpl|] |]).

(** No request is left without a disposition: whatever the token and
    whatever [jwt.verify] does, a run of [userAuth] either calls [next()] or
    has answered the client. *)
Theorem userAuth_never_hangs (token : option string) :
  next_called (snd (run verify JWT_SECRET token)) = true
  \/ is_Some (client_response (snd (run verify JWT_SECRET token))).
Proof.
  run_paths token; eauto.
Qed.

(** For a non-empty token the two dispositions exclude each other: either
    [next()] is called and nothing is sent to the client, or [next()] is not
    called and exactly one response is sent. *)
Theorem userAuth_passes_or_answers (t : string) :
  t ≠ "" ->
  (next_called (snd (run verify JWT_SECRET (Some t))) = true
   /\ responses (snd (run verify JWT_SECRET (Some t))) = [])
  \/ (next_called (snd (run verify JWT_SECRET (Some t))) = false
      /\ exists r, responses (snd (run verify JWT_SECRET (Some t))) = [r]).
Proof.
  intros Ht. pose proof (truthy_header_nonempty t Ht) as Hnonempty.
  run_paths (Some t); try congruence; eauto.
Qed.

(** Every run calls [jwt.verify] exactly once, on the token of the request
    and the configured secret, also when the token is missing and the 400
    has gone out already. *)
Theorem userAuth_verifies_once (token : option string) :
  verify_calls (snd (run verify JWT_SECRET token)) = [(token, JWT_SECRET)].
Proof.
  run_paths token; reflexivity.
Qed.

(** The handler behind the middleware can rely on [req.userId]: whenever
    [next()] is called, [req.userId] holds a truthy value, and whenever it is
    not called, [req.userId] was never assigned. *)
Theorem userAuth_userId_guard (token : option string) :
  (next_called (snd (run verify JWT_SECRET token)) = true ->
   truthy (userId (snd (run verify JWT_SECRET token))) = true)
  /\ (next_called (snd (run verify JWT_SECRET token)) = false ->
      userId (snd (run verify JWT_SECRET token)) = JUndefined).
Proof.
  run_paths token; split; intros Hnext; try discriminate; auto.
Qed.

(** The middleware never answers with success: every response it delivers
    has [success: false] and status 400 or 500, and no run delivers more than
    one response. *)
Theorem userAuth_responses (token : option string) :
  Forall (fun r => success (body r) = false /\ (status r = 400 \/ status r = 500))
    (responses (snd (run verify JWT_SECRET token)))
  /\ (length (responses (snd (run verify JWT_SECRET token))) <= 1)%nat.
Proof.
  run_paths token; (split; [|simpl; lia]);
    repeat (apply List.Forall_cons; [split; [reflexivity | auto] |]);
    apply List.Forall_nil.
Qed.

(** The example middleware of the README and the middleware of [auth.js]
    behave alike on a non-empty token exactly when the token verifies and
    its payload has a truthy [id]: on every other token the example either
    lets the exception out or calls [next()], where [auth.js] answers the
    client. *)
Theorem userAuth_example_agrees_iff (t : string) :
  t ≠ "" ->
  userAuth_example verify JWT_SECRET (Some t) [] = run verify JWT_SECRET (Some t)
  <-> exists payload id,
        verify (Some t) JWT_SECRET = Normal payload
        /\ get_prop payload "id" = Normal id /\ truthy id = true.
Proof.
  intros Ht. rewrite (userAuth_nonempty _ _ t Ht).
  unfold userAuth_example. unfold_run. simpl.
  destruct (verify (Some t) JWT_SECRET) as [payload|err] eqn:Hverify; simpl.
  - destruct (get_prop payload "id") as [id|err] eqn:Hid; simpl.
    + destruct (truthy id) eqn:Htruthy; simpl.
      * split; [intros _; eauto | reflexivity].
      * split; [discriminate|].
        intros (p & i & Hp & Hi & Hti). congruence.
    + split; [discriminate|].
      intros (p & i & Hp & Hi & _). congruence.
  - split; [discriminate|].
    intros (p & i & Hp & _). discriminate.
Qed.

(** What the status of the answer tells the client who sent a non-empty
    token: the answer is the 400 "Not Authorized Login Again" exactly when
    the token verified and its payload has no truthy [id], and it is a 500
    exactly when an error was thrown inside the [try], by [jwt.verify] or by
    the read of [id]; the body of the 500 then carries that error's
    message. *)
Theorem userAuth_response_iff (t : string) :
  t ≠ "" ->
  (client_response (snd (run verify JWT_SECRET (Some t)))
     = Some (mkResponse 400 not_authorized)
   <-> exists payload id,
         verify (Some t) JWT_SECRET = Normal payload
         /\ get_prop payload "id" = Normal id /\ truthy id = false)
  /\ (forall b,
        client_response (snd (run verify JWT_SECRET (Some t)))
          = Some (mkResponse 500 b)
        <-> exists e,
              b = mkBody false (message e)
              /\ (verify (Some t) JWT_SECRET = Thrown e
                  \/ exists payload,
                       verify (Some t) JWT_SECRET = Normal payload
                       /\ get_prop payload "id" = Thrown e)).
Proof.
  intros Ht. rewrite (userAuth_nonempty _ _ t Ht). unfold_run. simpl.
  destruct (verify (Some t) JWT_SECRET) as [payload|err] eqn:Hverify; simpl.
  - destruct (get_prop payload "id") as [id|err] eqn:Hid; simpl.
    + destruct (truthy id) eqn:Htruthy; simpl.
      * split; [split; [discriminate|]|intros b; split; [discriminate|]].
        -- intros (p & i & Hp & Hi & Hti). congruence.
        -- intros (e & _ & [He | (p & Hp & Hi)]); congruence.
      * split; [split; [intros _; eauto | reflexivity]|].
        intros b; split; [discriminate|].
        intros (e & _ & [He | (p & Hp & Hi)]); congruence.
    + split; [split; [discriminate|]|intros b; split].
      * intros (p & i & Hp & Hi & _). congruence.
      * intros Hb. injection Hb as <-. exists err. split; [reflexivity|].
        right. eauto.
      * intros (e & -> & [He | (p & Hp & Hi)]); [discriminate|].
        injection Hp as <-. rewrite Hid in Hi. injection Hi as ->. reflexivity.
  - split; [split; [discriminate|]|intros b; split].
    + intros (p & i & Hp & _). discriminate.
    + intros Hb. injection Hb as <-. exists err. split; [reflexivity|].
      left. reflexivity.
    + intros (e & -> & [He | (p & Hp & Hi)]); [|discriminate].
      injection He as ->. reflexivity.
Qed.

End AuthFurther.

Lemma userAuth_nonempty_returns_witness :
  fst (run sample_verify (Some "k") (Some "forged")) = Normal tt.
Proof.
  apply (userAuth_nonempty_returns sample_verify (Some "k") "forged").
  discriminate.
Defined.

Lemma userAuth_passes_or_answers_witness :
  (next_called (snd (run sample_verify (Some "k") (Some "expired"))) = true
   /\ responses (snd (run sample_verify (Some "k") (Some "expired"))) = [])
  \/ (next_called (snd (run sample_verify (Some "k") (Some "expired"))) = false
      /\ exists r, responses (snd (run sample_verify (Some "k") (Some "expired"))) = [r]).
Proof.
  apply (userAuth_passes_or_answers sample_verify (Some "k") "expired").
  discriminate.
Defined.

Lemma userAuth_example_agrees_iff_witness :
  userAuth_example sample_verify (Some "k") (Some "signed-u1") []
    = run sample_verify (Some "k") (Some "signed-u1").
Proof.
  apply (proj2 (userAuth_example_agrees_iff sample_verify (Some "k") "signed-u1"
                  ltac:(discriminate))).
  exists (JObject {["id" := JString "u1"]}), (JString "u1").
  repeat split.
Defined.

(** * Further properties of the README's credit update *)

Section ReadmeFacts.

Implicit Types (u : string) (b : Z) (store : gmap string Z).
Implicit Types (r : Request) (requests : list Request).

Lemma deducted_cons u r requests :
  deducted u (r :: requests) = (if is_updated u r then 1 else 0) + deducted u requests.
Proof.
  unfold deducted. simpl. destruct (is_updated u r); simpl; lia.
Qed.

(** Replacing a request changes the count by what the two contribute. *)
Lemma deducted_insert u (i : nat) r r' requests :
  requests !! i = Some r ->
  deducted u (<[i := r']> requests) =
    deducted u requests - (if is_updated u r then 1 else 0)
                        + (if is_updated u r' then 1 else 0).
Proof.
  revert i. induction requests as [|x requests IH]; intros [|i] Hi;
    simpl in *; try discriminate.
  - injection Hi as ->. rewrite !deducted_cons. lia.
  - rewrite !deducted_cons, (IH i Hi). lia.
Qed.

Lemma deducted_le_length u requests :
  0 <= deducted u requests <= Z.of_nat (length requests).
Proof.
  induction requests as [|r requests IH]; [unfold deducted; simpl; lia|].
  rewrite deducted_cons. simpl length. destruct (is_updated u r); lia.
Qed.

(** A schedule neither adds nor drops a request. *)
Lemma run_schedule_length (schedule : list nat) :
  forall store requests,
    length (snd (run_schedule schedule store requests)) = length requests.
Proof.
  induction schedule as [|i schedule IH]; intros store requests; simpl.
  - reflexivity.
  - destruct (requests !! i) as [r|]; [|apply IH].
    destruct (step store r) as [store' r'].
    rewrite IH. apply length_insert.
Qed.

Lemma deducted_all_start u requests :
  forallb is_start requests = true -> deducted u requests = 0.
Proof.
  induction requests as [|r requests IH]; intros Hall; [reflexivity|].
  simpl in Hall. apply andb_true_iff in Hall as [Hr Hall].
  rewrite deducted_cons, (IH Hall). destruct r; try discriminate. reflexivity.
Qed.

Lemma all_start_not_loaded (P : Request -> Prop) requests :
  forallb is_start requests = true ->
  (forall u, P (Start u)) ->
  Forall P requests.
Proof.
  intros Hall HP. induction requests as [|r requests IH]; [constructor|].
  simpl in Hall. apply andb_true_iff in Hall as [Hr Hall].
  constructor; [|exact (IH Hall)].
  destruct r; try discriminate. apply HP.
Qed.

(** One scheduled step keeps [within_charges]. *)
Lemma within_charges_step u b store requests (i : nat) r store' r' :
  within_charges u b store requests ->
  requests !! i = Some r ->
  step store r = (store', r') ->
  within_charges u b store' (<[i := r']> requests).
Proof.
  intros (v & Hv & Hbounds & Hone & Hall) Hi Hstep.
  pose proof (deducted_insert u i r r' requests Hi) as Hd.
  assert (Hr : forall s, r = Loaded u (Some s) -> b - deducted u requests <= s <= b).
  { exact (Forall_lookup_1 _ _ _ _ Hall Hi). }
  assert (Hkeep : forall d',
    d' = deducted u requests -> store' !! u = Some v ->
    (forall s, r' = Loaded u (Some s) -> s = v) ->
    deducted u (<[i := r']> requests) = d' ->
    within_charges u b store' (<[i := r']> requests)).
  { intros d' -> Hv' Hnew Hd'. exists v. rewrite Hd'.
    repeat split; try lia; try assumption.
    apply Forall_insert; [exact Hall|].
    intros s Hs. rewrite (Hnew s Hs). exact Hbounds. }
  destruct r as [u0 | u0 [s|] | u0 | u0]; simpl in Hstep;
    injection Hstep as <- <-; simpl in Hd.
  - apply (Hkeep _ eq_refl Hv); [|lia].
    intros s Hs. injection Hs as -> Hs. unfold findById in Hs. congruence.
  - destruct (decide (u0 = u)) as [->|Hne].
    + rewrite bool_decide_eq_true_2 in Hd by reflexivity.
      specialize (Hr s eq_refl).
      exists (s - 1). unfold findByIdAndUpdate. rewrite lookup_alter_eq, Hv, Hd.
      repeat split; try lia.
      apply Forall_insert; [|discriminate].
      eapply Forall_impl; [exact Hall|].
      intros r0 H0 s0 Hs0. specialize (H0 s0 Hs0). lia.
    + rewrite bool_decide_eq_false_2 in Hd by exact Hne.
      apply (Hkeep _ eq_refl); [|discriminate|lia].
      unfold findByIdAndUpdate. rewrite lookup_alter_ne by exact Hne. exact Hv.
  - apply (Hkeep _ eq_refl Hv); [discriminate|lia].
  - apply (Hkeep _ eq_refl Hv); [discriminate|lia].
  - apply (Hkeep _ eq_refl Hv); [discriminate|lia].
Qed.

Lemma within_charges_run u b (schedule : list nat) :
  forall store requests,
    within_charges u b store requests ->
    within_charges u b (fst (run_schedule schedule store requests))
                       (snd (run_schedule schedule store requests)).
Proof.
  induction schedule as [|i schedule IH]; intros store requests Hinv; simpl.
  - exact Hinv.
  - destruct (requests !! i) as [r|] eqn:Hi; [|apply IH; exact Hinv].
    destruct (step store r) as [store' r'] eqn:Hstep.
    apply IH. exact (within_charges_step u b store requests i r store' r' Hinv Hi Hstep).
Qed.

(** One scheduled step keeps [never_served]. *)
Lemma never_served_step u store requests (i : nat) r store' r' :
  never_served u store requests ->
  requests !! i = Some r ->
  step store r = (store', r') ->
  never_served u store' (<[i := r']> requests).
Proof.
  intros (Hnone & Hall) Hi Hstep.
  pose proof (Forall_lookup_1 _ _ _ _ Hall Hi) as (Hr1 & Hr2).
  destruct r as [u0 | u0 [s|] | u0 | u0]; simpl in Hstep;
    injection Hstep as <- <-.
  - split; [exact Hnone|]. apply Forall_insert; [exact Hall|].
    split; [discriminate|]. intros s Hs. injection Hs as -> Hs.
    unfold findById in Hs. congruence.
  - assert (Hne : u0 ≠ u) by (intros ->; exact (Hr2 s eq_refl)).
    split.
    + unfold findByIdAndUpdate. rewrite lookup_alter_ne by exact Hne. exact Hnone.
    + apply Forall_insert; [exact Hall|]. split; [congruence | discriminate].
  - split; [exact Hnone|]. apply Forall_insert; [exact Hall|].
    split; discriminate.
  - split; [exact Hnone|]. apply Forall_insert; [exact Hall|].
    split; [exact Hr1 | discriminate].
  - split; [exact Hnone|]. apply Forall_insert; [exact Hall|].
    split; discriminate.
Qed.

Lemma never_served_deducted u store requests :
  never_served u store requests -> deducted u requests = 0.
Proof.
  intros (_ & Hall). induction Hall as [|r requests (Hr & _) _ IH]; [reflexivity|].
  rewrite deducted_cons, IH.
  destruct r as [u0 | u0 o | u0 | u0]; simpl; try reflexivity.
  rewrite bool_decide_eq_false_2; [reflexivity | congruence].
Qed.

End ReadmeFacts.

Section ReadmeFurther.

Implicit Types (u : string) (b : Z) (store : gmap string Z).
Implicit Types (r : Request) (requests : list Request).

(** Under every interleaving of the README's update, a user is never
    charged more than one credit for each request that completed, and may be
    charged less.  For balances that are safe integers, from the balance [b]
    when the requests come in down to [b] less the number of requests: the
    stored balance ends between [b] less the number of completed requests
    and [b], below [b] as soon as one request completed, and is a safe
    integer still. *)
Theorem readme_update_never_overcharges u b store requests (schedule : list nat) :
  store !! u = Some b ->
  forallb is_start requests = true ->
  safe_integer b ->
  safe_integer (b - Z.of_nat (length requests)) ->
  exists b',
    fst (run_schedule schedule store requests) !! u = Some b'
    /\ b - deducted u (snd (run_schedule schedule store requests)) <= b' <= b
    /\ (1 <= deducted u (snd (run_schedule schedule store requests)) -> b' <= b - 1)
    /\ safe_integer b'.
Proof.
  intros Hb Hstart Hsafe Hsafe'.
  destruct (within_charges_run u b schedule store requests) as (b' & Hb' & Hbounds & Hone & _).
  - exists b. rewrite (deducted_all_start u requests Hstart).
    repeat split; try lia; try assumption.
    apply all_start_not_loaded; [exact Hstart | discriminate].
  - exists b'. repeat split; try assumption; try lia.
    + pose proof (deducted_le_length u (snd (run_schedule schedule store requests))) as Hle.
      rewrite run_schedule_length in Hle. unfold safe_integer in *. lia.
    + unfold safe_integer in *. lia.
Qed.

(** A user without a document is never served: under every interleaving no
    request of theirs completes the update, and no document is created for
    them. *)
Theorem readme_update_unknown_user u store requests (schedule : list nat) :
  store !! u = None ->
  forallb is_start requests = true ->
  fst (run_schedule schedule store requests) !! u = None
  /\ deducted u (snd (run_schedule schedule store requests)) = 0.
Proof.
  intros Hnone Hstart.
  assert (Hinv : never_served u store requests).
  { split; [exact Hnone|].
    apply all_start_not_loaded; [exact Hstart|]. split; discriminate. }
  clear Hnone Hstart.
  assert (Hrun : never_served u (fst (run_schedule schedule store requests))
                                (snd (run_schedule schedule store requests))).
  { revert store requests Hinv.
    induction schedule as [|i schedule IH]; intros store requests Hinv; simpl.
    - exact Hinv.
    - destruct (requests !! i) as [r|] eqn:Hi; [|apply IH; exact Hinv].
      destruct (step store r) as [store' r'] eqn:Hstep.
      apply IH.
      exact (never_served_step u store requests i r store' r' Hinv Hi Hstep). }
  split; [exact (proj1 Hrun) | exact (never_served_deducted _ _ _ Hrun)].
Qed.

(** The requests of one user leave the balances of the others alone: under
    every interleaving, a user for whom no request is in flight keeps the
    balance they had. *)
Theorem readme_update_other_users u (schedule : list nat) :
  forall store requests,
    Forall (fun r => request_user r ≠ u) requests ->
    fst (run_schedule schedule store requests) !! u = store !! u.
Proof.
  induction schedule as [|i schedule IH]; intros store requests Hall; simpl.
  - reflexivity.
  - destruct (requests !! i) as [r|] eqn:Hi; [|apply IH; exact Hall].
    pose proof (Forall_lookup_1 _ _ _ _ Hall Hi) as Hr.
    destruct (step store r) as [store' r'] eqn:Hstep.
    assert (Hstore : store' !! u = store !! u /\ request_user r' ≠ u).
    { destruct r as [u0 | u0 [s|] | u0 | u0]; simpl in Hstep, Hr;
        injection Hstep as <- <-; simpl; split; try reflexivity; try exact Hr.
      unfold findByIdAndUpdate. apply lookup_alter_ne. exact Hr. }
    destruct Hstore as [Hstore Hr'].
    rewrite IH; [exact Hstore|].
    apply Forall_insert; [exact Hall | exact Hr'].
Qed.

(** The update never creates and never removes a document: under every
    interleaving the users of the store stay the same. *)
Theorem readme_update_same_users (schedule : list nat) :
  forall store requests,
    dom (fst (run_schedule schedule store requests)) = dom store.
Proof.
  induction schedule as [|i schedule IH]; intros store requests; simpl.
  - reflexivity.
  - destruct (requests !! i) as [r|] eqn:Hi; [|apply IH].
    destruct (step store r) as [store' r'] eqn:Hstep.
    rewrite IH.
    destruct r as [u0 | u0 [s|] | u0 | u0]; simpl in Hstep;
      injection Hstep as <- <-; try reflexivity.
    unfold findByIdAndUpdate. apply dom_alter_L.
Qed.

(** Served one after the other, each request to its end before the next
    begins, [n] requests of a user deduct exactly [n] credits, through zero
    and below: the update has no floor at zero.  For balances that are safe
    integers, from [b] down to [b] less [n]. *)
Theorem readme_update_one_by_one u b store (n : nat) :
  store !! u = Some b ->
  safe_integer b ->
  safe_integer (b - Z.of_nat n) ->
  Nat.iter n (serve_alone u) store !! u = Some (b - Z.of_nat n).
Proof.
  intros Hb _ _. induction n as [|n IH].
  - simpl. rewrite Hb. f_equal. lia.
  - rewrite Nat.iter_succ. unfold serve_alone at 1. simpl.
    unfold findById, findByIdAndUpdate. rewrite IH. simpl.
    rewrite lookup_alter_eq, IH. simpl. f_equal. lia.
Qed.

End ReadmeFurther.

Lemma readme_update_never_overcharges_witness :
  exists b',
    fst (run_schedule [0; 1; 2; 1; 0; 2]%nat {["u1" := 5]}
           [Start "u1"; Start "u1"; Start "u1"]) !! "u1" = Some b'
    /\ 5 - deducted "u1"
             (snd (run_schedule [0; 1; 2; 1; 0; 2]%nat {["u1" := 5]}
                     [Start "u1"; Start "u1"; Start "u1"])) <= b' <= 5
    /\ (1 <= deducted "u1"
               (snd (run_schedule [0; 1; 2; 1; 0; 2]%nat {["u1" := 5]}
                       [Start "u1"; Start "u1"; Start "u1"])) -> b' <= 5 - 1)
    /\ safe_integer b'.
Proof.
  apply (readme_update_never_overcharges "u1" 5 {["u1" := 5]}
           [Start "u1"; Start "u1"; Start "u1"] [0; 1; 2; 1; 0; 2]%nat).
  - reflexivity.
  - reflexivity.
  - unfold safe_integer, MAX_SAFE_INTEGER. lia.
  - unfold safe_integer, MAX_SAFE_INTEGER. simpl. lia.
Defined.

Lemma readme_update_unknown_user_witness :
  fst (run_schedule [0; 0]%nat {["u1" := 5]} [Start "u2"]) !! "u2" = None
  /\ deducted "u2" (snd (run_schedule [0; 0]%nat {["u1" := 5]} [Start "u2"])) = 0.
Proof.
  apply (readme_update_unknown_user "u2" {["u1" := 5]} [Start "u2"] [0; 0]%nat).
  - reflexivity.
  - reflexivity.
Defined.

Lemma readme_update_other_users_witness :
  fst (run_schedule [0; 0]%nat {["u1" := 5; "u2" := 3]} [Start "u1"]) !! "u2"
    = ({["u1" := 5; "u2" := 3]} : gmap string Z) !! "u2".
Proof.
  apply (readme_update_other_users "u2" [0; 0]%nat {["u1" := 5; "u2" := 3]} [Start "u1"]).
  apply List.Forall_cons; [simpl; discriminate | apply List.Forall_nil].
Defined.

Lemma readme_update_one_by_one_witness :
  Nat.iter 2 (serve_alone "u1") {["u1" := 1]} !! "u1" = Some (1 - Z.of_nat 2).
Proof.
  apply (readme_update_one_by_one "u1" 1 {["u1" := 1]} 2).
  - reflexivity.
  - unfold safe_integer, MAX_SAFE_INTEGER. lia.
  - unfold safe_integer, MAX_SAFE_INTEGER. simpl. lia.
Defined.

Lemma userAuth_response_iff_witness :
  client_response (snd (run sample_verify (Some "k") (Some "signed-noid")))
    = Some (mkResponse 400 not_authorized).
Proof.
  apply (proj1 (userAuth_response_iff sample_verify (Some "k") "signed-noid"
                  ltac:(discriminate))).
  exists (JObject ∅), JUndefined. repeat split.
Defined.
